(** * web-transcribe: the audio capture stream of [src/stream.js]

    A shallow embedding of [streamMicrophone], of the worklet class
    [AudioCaptureProcessor] it registers, and of the [stop] function it
    returns, together with the properties of the frame accumulator and of
    the session lifecycle.

    Layout: JavaScript values and arrays, the worklet processor, the host
    environment and the start/stop code, then the theorems. *)

From stdpp Require Import base numbers option list strings gmap.

Local Open Scope Z_scope.

(** ** JavaScript values

    The values an entry of the [options] object is modelled with.  Numbers
    are the integers and [NaN]; the other falsy primitives are present so
    that [||] can be followed on them. *)
Inductive jsval :=
  | VUndefined
  | VNull
  | VBool (b : bool)
  | VNaN
  | VNum (n : Z)
  | VStr (s : string).

#[global] Instance jsval_eq_dec : EqDecision jsval.
Proof. solve_decision. Defined.

(** [ToBoolean]: [undefined], [null], [false], [NaN], [0] and the empty
    string are falsy, everything else is truthy. *)
Definition truthy (v : jsval) : bool :=
  match v with
  | VUndefined | VNull | VNaN => false
  | VBool b => b
  | VNum n => negb (n =? 0)
  | VStr s => negb (String.eqb s EmptyString)
  end.

(** [a || b] *)
Definition js_or (a b : jsval) : jsval := if truthy a then a else b.

(** [o.key]: a missing property reads as [undefined]. *)
Definition get_prop (o : gmap string jsval) (key : string) : jsval :=
  default VUndefined (o !! key).

(** ** Arrays: [Array.prototype.slice] on integer arguments *)
Module JSArray.

(** A relative index: negative counts from the end, both ends clamped. *)
Definition relative_index (len k : Z) : Z :=
  if k <? 0 then Z.max (len + k) 0 else Z.min k len.

(** [a.slice(start, end)] *)
Definition slice {A} (a : list A) (start end_ : Z) : list A :=
  let len := Z.of_nat (length a) in
  let k := relative_index len start in
  let final := relative_index len end_ in
  take (Z.to_nat (Z.max (final - k) 0)) (drop (Z.to_nat k) a).

(** [a.slice(start)]: [end] is [undefined], read as the length. *)
Definition slice_from {A} (a : list A) (start : Z) : list A :=
  slice a start (Z.of_nat (length a)).

End JSArray.

(** ** The worklet: [AudioCaptureProcessor] *)
Section Processor.

(** Samples are the numbers of a [Float32Array]; the processor moves them
    and never looks at them.  The sample rate is a number it copies. *)
Context {sample rate : Type}.

(** The fields set by the constructor. *)
Record processor := Processor {
  bufferSize : Z;
  buffer : list sample;
  sampleRate : rate;
}.

(** The object given to [this.port.postMessage]. *)
Record message := Message {
  msg_samples : list sample;
  msg_sampleRate : rate;
}.

(** The object given to [callback]. *)
Record frame := Frame {
  samples : list sample;
  frame_sampleRate : rate;
  bufferLength : Z;
}.

(** [constructor(options)]: the buffer starts empty. *)
Definition new_processor (size : Z) (r : rate) : processor :=
  {| bufferSize := size; buffer := []; sampleRate := r |}.

(** The body of [process] once [const input = inputs[0]] is read:
    [input] is the list of channels of the first input. It gives the
    processor after the call and the messages posted by it. *)
Definition process_input (p : processor) (input : list (list sample))
  : processor * list message :=
  match input with
  | [] => (p, [])
  | samples :: _ =>
      let buf := buffer p ++ samples in
      if Z.of_nat (length buf) >=? bufferSize p then
        ({| bufferSize := bufferSize p;
            buffer := JSArray.slice_from buf (bufferSize p);
            sampleRate := sampleRate p |},
         [ {| msg_samples := JSArray.slice buf 0 (bufferSize p);
              msg_sampleRate := sampleRate p |} ])
      else
        ({| bufferSize := bufferSize p;
            buffer := buf;
            sampleRate := sampleRate p |}, [])
  end.

(** [process(inputs, outputs, parameters)]: reading [.length] of a missing
    [inputs[0]] throws, which is [None] here.  The node is built with the
    default single input, so the host always passes one. *)
Definition process (p : processor) (inputs : list (list (list sample)))
  : option (processor * list message) :=
  match inputs with
  | [] => None
  | input :: _ => Some (process_input p input)
  end.

(** The processor run over the inputs of successive render quanta, with
    all the messages it posted, in order. *)
Fixpoint run (p : processor) (inputs : list (list (list sample)))
  : processor * list message :=
  match inputs with
  | [] => (p, [])
  | input :: rest =>
      let '(p1, out1) := process_input p input in
      let '(p2, out2) := run p1 rest in
      (p2, out1 ++ out2)
  end.

(** [workletNode.port.onmessage]: what the callback receives for one
    message. *)
Definition onmessage (m : message) : frame :=
  {| samples := msg_samples m;
     frame_sampleRate := msg_sampleRate m;
     bufferLength := Z.of_nat (length (msg_samples m)) |}.

(** The block of one input: channel 0, or nothing when the input has no
    channel. *)
Definition block_of (input : list (list sample)) : list sample :=
  match input with
  | [] => []
  | samples :: _ => samples
  end.

End Processor.

Arguments processor : clear implicits.
Arguments message : clear implicits.
Arguments frame : clear implicits.

(** ** The host environment

    [streamMicrophone] and [stop] talk to the browser: media devices, the
    audio context, the worklet registry and the URL store.  The host is a
    table saying what each of those calls throws, if anything, and what the
    successful ones return. *)

Inductive track_kind := AudioTrack | VideoTrack.

Record track := Track { track_id : nat; kind : track_kind }.

(** A [MediaStream] is what [getTracks()] gives. *)
Record media_stream := MediaStream { getTracks : list track }.

#[global] Instance track_kind_eq_dec : EqDecision track_kind.
Proof. solve_decision. Defined.
#[global] Instance track_eq_dec : EqDecision track.
Proof. solve_decision. Defined.
#[global] Instance media_stream_eq_dec : EqDecision media_stream.
Proof. solve_decision. Defined.

Definition is_audio (t : track) : bool :=
  match kind t with AudioTrack => true | VideoTrack => false end.

Definition getAudioTracks (s : media_stream) : list track :=
  filter (fun t => is_audio t = true) (getTracks s).

(** A thrown value, or the reason of a rejected promise: the name of the
    exception. *)
Definition js_error := string.

(** The calls into the host, with the arguments the code passes. *)
Inductive host_call :=
  | GetDisplayMedia
  | GetUserMedia
  | NewAudioContext
  | CreateObjectURL
  | AddModule (url : string)
  | NewAudioWorkletNode (size : jsval)
  | CreateMediaStreamSource (s : media_stream)
  | SourceConnect
  | WorkletConnect
  | WorkletDisconnect
  | SourceDisconnect
  | ContextClose
  | RevokeObjectURL (url : string)
  | TrackStop (t : track).

#[global] Instance host_call_eq_dec : EqDecision host_call.
Proof. solve_decision. Defined.

(** What is observed of a call: it returned, or it threw. *)
Inductive event :=
  | Returned (c : host_call)
  | Threw (c : host_call) (e : js_error).

Definition call_of (ev : event) : host_call :=
  match ev with Returned c | Threw c _ => c end.

Record host {rate : Type} := Host {
  throws : host_call -> option js_error;
  display_stream : media_stream;   (* granted by getDisplayMedia *)
  user_stream : media_stream;      (* granted by getUserMedia *)
  context_rate : rate;             (* audioContext.sampleRate *)
  blob_url : string;               (* given by URL.createObjectURL *)
}.
Arguments host : clear implicits.

(** ** Running code against the host

    A computation extends the trace of events and ends with a value or
    with the error that was thrown. An [await] of a rejected promise inside
    an [async] function is a throw, so both are the left case. *)
Definition M (A : Type) : Type := list event -> (js_error + A) * list event.

#[global] Instance M_ret : MRet M := fun A x tr => (inr x, tr).

#[global] Instance M_bind : MBind M := fun A B k m tr =>
  match m tr with
  | (inl e, tr') => (inl e, tr')
  | (inr x, tr') => k x tr'
  end.

(** One call into the host. *)
Definition call {rate} (h : host rate) (c : host_call) : M unit := fun tr =>
  match throws h c with
  | Some e => (inl e, tr ++ [Threw c e])
  | None => (inr (), tr ++ [Returned c])
  end.

(** [xs.forEach(f)] *)
Fixpoint forEach {A} (f : A -> M unit) (xs : list A) : M unit :=
  match xs with
  | [] => mret ()
  | x :: rest => f x ;; forEach f rest
  end.

(** ** [streamMicrophone] and [stop] *)
Section Stream.

Context {rate : Type}.
Variable h : host rate.

(** What the returned [stop] closure has captured, and the options the
    worklet processor was constructed with. *)
Record session := Session {
  stream : media_stream;
  workletUrl : string;
  session_bufferSize : jsval;
  session_sampleRate : rate;
}.

(** [streamMicrophone(callback, options = {})]. [None] is the omitted
    argument, which the default replaces by the empty object. Each [await],
    constructor and method call on a host object is one host call, in source
    order; the [Blob] goes with [URL.createObjectURL], and the template
    string, the read of [audioContext.sampleRate] and the assignment of
    [onmessage] throw nothing. The callback is reached through
    [onmessage] only. *)
Definition streamMicrophone (options : option (gmap string jsval))
  : M session :=
  let options := default ∅ options in
  let bufferSize := js_or (get_prop options "bufferSize") (VNum 4096) in
  let from_display := js_or (get_prop options "fromDisplay") (VBool false) in
  stream ← (if truthy from_display
            then call h GetDisplayMedia ;; mret (display_stream h)
            else call h GetUserMedia ;; mret (user_stream h));
  call h NewAudioContext ;;
  let sampleRate := context_rate h in
  call h CreateObjectURL ;;
  let workletUrl := blob_url h in
  call h (AddModule workletUrl) ;;
  call h (NewAudioWorkletNode bufferSize) ;;
  call h (CreateMediaStreamSource stream) ;;
  call h SourceConnect ;;
  call h WorkletConnect ;;
  mret {| stream := stream;
          workletUrl := workletUrl;
          session_bufferSize := bufferSize;
          session_sampleRate := sampleRate |}.

(** The returned function. Its three guards test objects, which are
    truthy, so each guarded call is made. *)
Definition stop (s : session) : M unit :=
  call h WorkletDisconnect ;;
  call h SourceDisconnect ;;
  call h ContextClose ;;
  call h (RevokeObjectURL (workletUrl s)) ;;
  forEach (fun t => call h (TrackStop t)) (getTracks (stream s)).

(** The calls of a complete teardown, in the order of the source. *)
Definition teardown_calls (s : session) : list host_call :=
  [WorkletDisconnect; SourceDisconnect; ContextClose;
   RevokeObjectURL (workletUrl s)]
  ++ map TrackStop (getTracks (stream s)).

(** The worklet processor the host constructs for the session, for the
    integer frame sizes the processor is modelled on. *)
Definition session_processor {sample : Type} (s : session)
  : option (processor sample rate) :=
  match session_bufferSize s with
  | VNum n => Some (new_processor n (session_sampleRate s))
  | _ => None
  end.

End Stream.

Arguments session : clear implicits.

(** ** The calls of a start, and the resources they hold

    [streamMicrophone] is a straight line of host calls; these are the
    calls, in order, the stream it is granted and the session it returns
    when none of them throws. *)
Section Lifecycle.
Context {rate : Type}.
Variable h : host rate.

Definition configured_bufferSize (options : option (gmap string jsval)) : jsval :=
  js_or (get_prop (default ∅ options) "bufferSize") (VNum 4096).

Definition from_display (options : option (gmap string jsval)) : bool :=
  truthy (js_or (get_prop (default ∅ options) "fromDisplay") (VBool false)).

Definition granted_stream (options : option (gmap string jsval)) : media_stream :=
  if from_display options then display_stream h else user_stream h.

Definition start_calls (options : option (gmap string jsval)) : list host_call :=
  [ if from_display options then GetDisplayMedia else GetUserMedia;
    NewAudioContext;
    CreateObjectURL;
    AddModule (blob_url h);
    NewAudioWorkletNode (configured_bufferSize options);
    CreateMediaStreamSource (granted_stream options);
    SourceConnect;
    WorkletConnect ].

Definition started_session (options : option (gmap string jsval)) : session rate :=
  {| stream := granted_stream options;
     workletUrl := blob_url h;
     session_bufferSize := configured_bufferSize options;
     session_sampleRate := context_rate h |}.

(** The call does not throw on this host. *)
Definition returns (c : host_call) : Prop := throws h c = None.

(** What a session holds of the host until it is given back. *)
Inductive resource :=
  | DeviceTrack (t : track)
  | Context
  | BlobURL (url : string).

#[global] Instance resource_eq_dec : EqDecision resource.
Proof. solve_decision. Defined.

(** The resources a call hands over when it returns. *)
Definition acquired_by (c : host_call) : list resource :=
  match c with
  | GetDisplayMedia => DeviceTrack <$> getTracks (display_stream h)
  | GetUserMedia => DeviceTrack <$> getTracks (user_stream h)
  | NewAudioContext => [Context]
  | CreateObjectURL => [BlobURL (blob_url h)]
  | _ => []
  end.

(** The resources a call gives back when it returns. *)
Definition released_by (c : host_call) : list resource :=
  match c with
  | ContextClose => [Context]
  | RevokeObjectURL url => [BlobURL url]
  | TrackStop t => [DeviceTrack t]
  | _ => []
  end.

(** The resources held after a trace: acquired by a call that returned and
    not given back since. *)
Definition held_step (acc : list resource) (ev : event) : list resource :=
  match ev with
  | Returned c => list_difference (acc ++ acquired_by c) (released_by c)
  | Threw _ _ => acc
  end.

Definition held (tr : list event) : list resource := foldl held_step [] tr.

End Lifecycle.

(** ** Hosts and processors used in the concrete runs *)
Module Fixtures.

Definition p2 : processor Z Z := new_processor 2 48000.
Definition five : list Z := [1; 2; 3; 4; 5].

Definition mic : media_stream := MediaStream [Track 1 AudioTrack].
Definition screen_with_audio : media_stream :=
  MediaStream [Track 2 VideoTrack; Track 3 AudioTrack].
Definition screen_without_audio : media_stream := MediaStream [Track 2 VideoTrack].

(** Every call succeeds; sharing the display gives picture and sound. *)
Definition granting : host Z :=
  {| throws := fun _ => None;
     display_stream := screen_with_audio;
     user_stream := mic;
     context_rate := 48000;
     blob_url := "blob:worklet" |}.

(** Loading the worklet module fails. *)
Definition module_rejecting : host Z :=
  {| throws := fun c => match c with
                        | AddModule _ => Some "AbortError"
                        | _ => None
                        end;
     display_stream := screen_with_audio;
     user_stream := mic;
     context_rate := 48000;
     blob_url := "blob:worklet" |}.

(** The user shares the display without its audio, and the host takes a
    stream without audio track as a source. *)
Definition silent_display : host Z :=
  {| throws := fun _ => None;
     display_stream := screen_without_audio;
     user_stream := mic;
     context_rate := 48000;
     blob_url := "blob:worklet" |}.

(** The same, on a host whose [createMediaStreamSource] throws on a stream
    without audio track. *)
Definition silent_display_strict : host Z :=
  {| throws := fun c => match c with
                        | CreateMediaStreamSource s =>
                            match getAudioTracks s with
                            | [] => Some "InvalidStateError"
                            | _ => None
                            end
                        | _ => None
                        end;
     display_stream := screen_without_audio;
     user_stream := mic;
     context_rate := 48000;
     blob_url := "blob:worklet" |}.

(** The user refuses the microphone. *)
Definition denying : host Z :=
  {| throws := fun c => match c with
                        | GetUserMedia => Some "NotAllowedError"
                        | _ => None
                        end;
     display_stream := screen_with_audio;
     user_stream := mic;
     context_rate := 48000;
     blob_url := "blob:worklet" |}.

Definition small_options : option (gmap string jsval) :=
  Some {[ "bufferSize" := VNum 2 ]}.

Definition display_options : option (gmap string jsval) :=
  Some {[ "fromDisplay" := VBool true ]}.

Definition negative_options : option (gmap string jsval) :=
  Some {[ "bufferSize" := VNum (-1) ]}.

Definition zero_options : option (gmap string jsval) :=
  Some {[ "bufferSize" := VNum 0 ]}.

End Fixtures.

(** * Properties *)

(** ** Slicing *)
Module JSArrayFacts.
Import JSArray.

Section Slice.
Context {A : Type}.
Implicit Types (a : list A) (n : Z).

(** A head slice is a [take], whatever the sign of the bound. *)
Lemma slice_0 a n :
  slice a 0 n = take (Z.to_nat (relative_index (Z.of_nat (length a)) n)) a.
Proof.
  unfold slice. generalize (Z.of_nat (length a)) (Nat2Z.is_nonneg (length a)).
  intros len Hlen.
  assert (H0 : relative_index len 0 = 0) by (unfold relative_index; simpl; lia).
  rewrite H0. simpl. f_equal.
  unfold relative_index. destruct (Z.ltb_spec n 0); lia.
Qed.

(** A tail slice is the matching [drop]. *)
Lemma slice_from_drop a n :
  slice_from a n = drop (Z.to_nat (relative_index (Z.of_nat (length a)) n)) a.
Proof.
  unfold slice_from, slice.
  pose proof (Nat2Z.is_nonneg (length a)) as Hnn.
  set (len := Z.of_nat (length a)) in *.
  assert (Hlen : relative_index len len = len).
  { unfold relative_index. destruct (Z.ltb_spec len 0); lia. }
  rewrite Hlen. apply take_ge. rewrite length_drop.
  assert (0 <= relative_index len n <= len).
  { unfold relative_index. destruct (Z.ltb_spec n 0); lia. }
  subst len. lia.
Qed.

(** [a.slice(0, n)] and [a.slice(n)] cut [a] in two, for every integer. *)
Lemma slice_split a n : slice a 0 n ++ slice_from a n = a.
Proof. rewrite slice_0, slice_from_drop. apply take_drop. Qed.

Lemma slice_0_take a n :
  0 <= n <= Z.of_nat (length a) -> slice a 0 n = take (Z.to_nat n) a.
Proof.
  intros Hn. rewrite slice_0. unfold relative_index.
  destruct (Z.ltb_spec n 0); [lia|]. f_equal. lia.
Qed.

Lemma slice_from_drop_nonneg a n :
  0 <= n <= Z.of_nat (length a) -> slice_from a n = drop (Z.to_nat n) a.
Proof.
  intros Hn. rewrite slice_from_drop. unfold relative_index.
  destruct (Z.ltb_spec n 0); [lia|]. f_equal. lia.
Qed.

Lemma slice_0_length a n :
  0 <= n <= Z.of_nat (length a) -> Z.of_nat (length (slice a 0 n)) = n.
Proof. intros Hn. rewrite slice_0_take, length_take by done. lia. Qed.

Lemma slice_from_length a n :
  0 <= n <= Z.of_nat (length a) ->
  Z.of_nat (length (slice_from a n)) = Z.of_nat (length a) - n.
Proof. intros Hn. rewrite slice_from_drop_nonneg, length_drop by done. lia. Qed.

End Slice.
End JSArrayFacts.

(** ** The frame accumulator *)
Section Accumulator.
Context {sample rate : Type}.
Implicit Types (p : processor sample rate) (input : list (list sample)).
Implicit Types (inputs : list (list (list sample))).

(** The two outcomes of a push that has a channel to read. *)
Lemma process_input_short p block others :
  Z.of_nat (length (buffer p ++ block)) < bufferSize p ->
  process_input p (block :: others) =
    ({| bufferSize := bufferSize p; buffer := buffer p ++ block;
        sampleRate := sampleRate p |}, []).
Proof.
  intros Hlt. unfold process_input.
  destruct (Z.geb_spec (Z.of_nat (length (buffer p ++ block))) (bufferSize p));
    [lia | done].
Qed.

Lemma process_input_full p block others :
  bufferSize p <= Z.of_nat (length (buffer p ++ block)) ->
  process_input p (block :: others) =
    ({| bufferSize := bufferSize p;
        buffer := JSArray.slice_from (buffer p ++ block) (bufferSize p);
        sampleRate := sampleRate p |},
     [ {| msg_samples := JSArray.slice (buffer p ++ block) 0 (bufferSize p);
          msg_sampleRate := sampleRate p |} ]).
Proof.
  intros Hge. unfold process_input.
  destruct (Z.geb_spec (Z.of_nat (length (buffer p ++ block))) (bufferSize p));
    [done | lia].
Qed.

(** With its first input present, [process] returns, with the result of
    the body. *)
Lemma process_returns p input more :
  process p (input :: more) = Some (process_input p input).
Proof. reflexivity. Qed.

(** A push never changes the configuration. *)
Lemma process_input_config p input :
  bufferSize (process_input p input).1 = bufferSize p
  /\ sampleRate (process_input p input).1 = sampleRate p.
Proof.
  destruct input as [|block others]; [done|]. unfold process_input.
  by destruct (_ >=? _).
Qed.

Lemma run_config p inputs :
  bufferSize (run p inputs).1 = bufferSize p
  /\ sampleRate (run p inputs).1 = sampleRate p.
Proof.
  revert p. induction inputs as [|input rest IH]; intros p; [done|].
  simpl. destruct (process_input p input) as [p1 out1] eqn:E1.
  destruct (run p1 rest) as [p2 out2] eqn:E2. simpl.
  pose proof (IH p1) as IH1. rewrite E2 in IH1. simpl in IH1.
  pose proof (process_input_config p input) as Hc. rewrite E1 in Hc.
  simpl in Hc. destruct IH1, Hc. split; congruence.
Qed.

(** What a push posts and what it keeps are, together, what it had and
    what it was given: nothing is lost, repeated or moved. *)
Lemma process_input_conserves p input :
  concat (msg_samples <$> (process_input p input).2)
    ++ buffer (process_input p input).1
  = buffer p ++ block_of input.
Proof.
  destruct input as [|block others]; simpl.
  - by rewrite app_nil_r.
  - destruct (_ >=? _); simpl.
    + rewrite app_nil_r. apply JSArrayFacts.slice_split.
    + done.
Qed.

Lemma run_conserves p inputs :
  concat (msg_samples <$> (run p inputs).2) ++ buffer (run p inputs).1
  = buffer p ++ concat (block_of <$> inputs).
Proof.
  revert p. induction inputs as [|input rest IH]; intros p; simpl.
  - by rewrite app_nil_r.
  - pose proof (process_input_conserves p input) as H1.
    destruct (process_input p input) as [p1 out1].
    specialize (IH p1). destruct (run p1 rest) as [p2 out2].
    simpl in *. rewrite fmap_app, concat_app, <- app_assoc, IH.
    by rewrite app_assoc, H1, <- app_assoc.
Qed.

(** With a frame size that is not negative, a posted message carries
    exactly that many samples. *)
Lemma process_input_frame_length p input m :
  0 <= bufferSize p ->
  m ∈ (process_input p input).2 ->
  Z.of_nat (length (msg_samples m)) = bufferSize p.
Proof.
  intros Hpos Hin. destruct input as [|block others]; simpl in Hin.
  - by apply elem_of_nil in Hin.
  - destruct (Z.geb_spec (Z.of_nat (length (buffer p ++ block)))
                (bufferSize p)) as [Hge|Hlt]; simpl in Hin.
    + apply list_elem_of_singleton in Hin as ->. simpl.
      apply JSArrayFacts.slice_0_length. lia.
    + by apply elem_of_nil in Hin.
Qed.

Lemma run_frame_length p inputs m :
  0 <= bufferSize p ->
  m ∈ (run p inputs).2 ->
  Z.of_nat (length (msg_samples m)) = bufferSize p.
Proof.
  revert p. induction inputs as [|input rest IH]; intros p Hpos Hin; simpl in Hin.
  - by apply elem_of_nil in Hin.
  - pose proof (process_input_frame_length p input m Hpos) as H1.
    pose proof (process_input_config p input) as [Hc _].
    destruct (process_input p input) as [p1 out1].
    specialize (IH p1). destruct (run p1 rest) as [p2 out2].
    simpl in *. apply elem_of_app in Hin as [Hin|Hin]; [by apply H1|].
    rewrite <- Hc. apply IH; [lia | done].
Qed.

End Accumulator.

(** ** The session lifecycle *)
Section LifecycleFacts.
Context {rate : Type}.
Variable h : host rate.
Implicit Types (options : option (gmap string jsval)) (tr : list event).
Implicit Types (cs pre post : list host_call) (c : host_call).

(** A line of calls none of which throws runs to its end. *)
Lemma forEach_call_returns cs tr :
  Forall (returns h) cs ->
  forEach (call h) cs tr = (inr (), tr ++ (Returned <$> cs)).
Proof.
  revert tr. induction cs as [|c cs IH]; intros tr Hcs; simpl.
  - by rewrite app_nil_r.
  - inversion Hcs as [|? ? Hc Hrest]; subst.
    unfold mbind, M_bind, call. rewrite Hc, IH by done.
    by rewrite <- app_assoc.
Qed.

(** It stops at the first call that throws, with what that call threw. *)
Lemma forEach_call_throws pre c post e tr :
  Forall (returns h) pre -> throws h c = Some e ->
  forEach (call h) (pre ++ c :: post) tr =
    (inl e, tr ++ (Returned <$> pre) ++ [Threw c e]).
Proof.
  revert tr. induction pre as [|c0 pre IH]; intros tr Hpre Hc; simpl.
  - unfold mbind, M_bind, call. by rewrite Hc.
  - inversion Hpre as [|? ? Hc0 Hrest]; subst.
    unfold mbind, M_bind, call at 1. rewrite Hc0, IH by done.
    by rewrite <- app_assoc.
Qed.

(** Either every call of a line returns or there is a first that throws. *)
Lemma first_throw cs :
  Forall (returns h) cs
  \/ exists pre c post e,
       cs = pre ++ c :: post /\ Forall (returns h) pre /\ throws h c = Some e.
Proof.
  induction cs as [|c cs IH]; [by left|].
  destruct (throws h c) as [e|] eqn:Hc.
  - right. exists [], c, cs, e. by repeat split.
  - destruct IH as [Hall|(pre & c' & post & e & -> & Hpre & Hc')].
    + left. by constructor.
    + right. exists (c :: pre), c', post, e. repeat split; try done.
      by constructor.
Qed.

(** [streamMicrophone] is the line [start_calls], followed by the return
    of the session. *)
Lemma streamMicrophone_calls options tr :
  streamMicrophone h options tr =
    match forEach (call h) (start_calls h options) tr with
    | (inl e, tr') => (inl e, tr')
    | (inr _, tr') => (inr (started_session h options), tr')
    end.
Proof.
  unfold streamMicrophone, start_calls, started_session, granted_stream,
    from_display, configured_bufferSize.
  destruct (truthy (js_or _ (VBool false))); simpl;
    unfold mbind, M_bind, mret, M_ret, call;
    repeat (destruct (throws h _); simpl; try reflexivity).
Qed.

Lemma streamMicrophone_resolves options tr :
  Forall (returns h) (start_calls h options) ->
  streamMicrophone h options tr =
    (inr (started_session h options),
     tr ++ (Returned <$> start_calls h options)).
Proof.
  intros Hall. by rewrite streamMicrophone_calls, forEach_call_returns.
Qed.

Lemma streamMicrophone_resolved options tr s tr' :
  streamMicrophone h options tr = (inr s, tr') ->
  s = started_session h options
  /\ tr' = tr ++ (Returned <$> start_calls h options)
  /\ Forall (returns h) (start_calls h options).
Proof.
  rewrite streamMicrophone_calls.
  destruct (first_throw (start_calls h options))
    as [Hall|(pre & c & post & e & Hcs & Hpre & Hc)].
  - rewrite forEach_call_returns by done. intros [= <- <-]. done.
  - rewrite Hcs, (forEach_call_throws pre c post e) by done. discriminate.
Qed.

Lemma streamMicrophone_rejected options tr e tr' :
  streamMicrophone h options tr = (inl e, tr') ->
  exists pre c post,
    start_calls h options = pre ++ c :: post
    /\ Forall (returns h) pre /\ throws h c = Some e
    /\ tr' = tr ++ (Returned <$> pre) ++ [Threw c e].
Proof.
  rewrite streamMicrophone_calls.
  destruct (first_throw (start_calls h options))
    as [Hall|(pre & c & post & e' & Hcs & Hpre & Hc)].
  - rewrite forEach_call_returns by done. discriminate.
  - rewrite Hcs, (forEach_call_throws pre c post e') by done. intros [= <- <-].
    by exists pre, c, post.
Qed.

(** [forEach] over mapped elements. *)
Lemma forEach_fmap {A B} (f : B -> M unit) (g : A -> B) (xs : list A) :
  forEach f (g <$> xs) = forEach (fun x => f (g x)) xs.
Proof.
  induction xs as [|x xs IH]; [done|].
  rewrite fmap_cons. cbn [forEach]. by rewrite IH.
Qed.

(** [stop] is the line [teardown_calls]. *)
Lemma stop_calls (s : session rate) tr :
  stop h s tr = forEach (call h) (teardown_calls s) tr.
Proof. unfold stop, teardown_calls. cbn [app forEach]. by rewrite forEach_fmap. Qed.

(** No call of a start gives anything back. *)
Lemma start_calls_release_nothing options :
  Forall (fun c => released_by c = []) (start_calls h options).
Proof.
  unfold start_calls. destruct (from_display options);
    repeat constructor.
Qed.

Lemma list_difference_nil_r {A} `{EqDecision A} (l : list A) :
  list_difference l [] = l.
Proof. induction l as [|x l IH]; simpl; [done|]. by rewrite IH. Qed.

(** While nothing is given back, what is held only grows. *)
Lemma held_acquiring (acc : list resource) pre :
  Forall (fun c => released_by c = []) pre ->
  foldl (held_step h) acc (Returned <$> pre)
  = acc ++ concat (acquired_by h <$> pre).
Proof.
  revert acc. induction pre as [|c pre IH]; intros acc Hpre; simpl.
  - by rewrite app_nil_r.
  - inversion Hpre as [|? ? Hc Hrest]; subst.
    rewrite Hc, list_difference_nil_r, IH by done. by rewrite <- app_assoc.
Qed.

End LifecycleFacts.

(** ** Claims about the frame accumulator *)
Section AccumulatorClaims.
Context {sample rate : Type}.
Implicit Types (p : processor sample rate) (block : list sample).
Implicit Types (inputs : list (list (list sample))).

(** C1, as the code has it. With a positive frame size, one push appends
    the block and posts at most one frame: none while the buffer is
    shorter than a frame, otherwise one with the first [bufferSize] samples,
    the rest staying in the buffer. The buffer ends shorter than a frame
    exactly when buffer and block together were shorter than two frames; an
    oversized block gives one frame in the invocation, not several. *)
Theorem process_input_single_emission p block others :
  0 < bufferSize p ->
  let n := Z.of_nat (length (buffer p ++ block)) in
  let r := process_input p (block :: others) in
  (length r.2 <= 1)%nat
  /\ (n < bufferSize p -> r.2 = [] /\ buffer r.1 = buffer p ++ block)
  /\ (bufferSize p <= n ->
      r.2 = [ {| msg_samples := take (Z.to_nat (bufferSize p)) (buffer p ++ block);
                 msg_sampleRate := sampleRate p |} ]
      /\ buffer r.1 = drop (Z.to_nat (bufferSize p)) (buffer p ++ block))
  /\ (Z.of_nat (length (buffer r.1)) < bufferSize p <-> n < 2 * bufferSize p).
Proof.
  intros Hpos n r.
  destruct (Z.lt_ge_cases n (bufferSize p)) as [Hlt|Hge].
  - subst r. rewrite process_input_short by done. simpl.
    repeat split; try done; lia.
  - subst r. rewrite process_input_full by done. simpl.
    assert (Hn : 0 <= bufferSize p <= Z.of_nat (length (buffer p ++ block)))
      by (fold n; lia).
    rewrite JSArrayFacts.slice_0_take, JSArrayFacts.slice_from_drop_nonneg by done.
    repeat split; try done; try lia; rewrite length_drop; fold n; lia.
Qed.

(** C2, as the code has it. From an empty buffer, a block of two and a
    half frames gives exactly one frame, its first [size] samples, and
    leaves one and a half frames pending. *)
Theorem process_input_oversized_block (size : Z) (r : rate) block others :
  0 < size ->
  2 * Z.of_nat (length block) = 5 * size ->
  process_input (new_processor size r) (block :: others) =
    ({| bufferSize := size; buffer := drop (Z.to_nat size) block;
        sampleRate := r |},
     [ {| msg_samples := take (Z.to_nat size) block; msg_sampleRate := r |} ])
  /\ Z.of_nat (length (take (Z.to_nat size) block)) = size
  /\ 2 * Z.of_nat (length (drop (Z.to_nat size) block)) = 3 * size.
Proof.
  intros Hpos Hlen.
  rewrite process_input_full by (simpl; lia). simpl.
  rewrite JSArrayFacts.slice_0_take, JSArrayFacts.slice_from_drop_nonneg by lia.
  rewrite length_take, length_drop. repeat split; lia.
Qed.

(** C3. For every sequence of inputs given to a new processor, of any
    frame size, the samples of the delivered frames, in order, followed by
    the pending buffer are the samples of the blocks, in order; so the
    delivered samples are a prefix of the received ones. *)
Theorem frames_prefix_of_blocks (size : Z) (r : rate) inputs :
  let out := run (new_processor size r) inputs in
  let delivered := concat (samples <$> (onmessage <$> out.2)) in
  delivered ++ buffer out.1 = concat (block_of <$> inputs)
  /\ delivered `prefix_of` concat (block_of <$> inputs).
Proof.
  intros out delivered.
  assert (H : delivered ++ buffer out.1 = concat (block_of <$> inputs)).
  { subst delivered out. rewrite <- list_fmap_compose.
    apply (run_conserves (new_processor size r) inputs). }
  split; [done|]. exists (buffer out.1). by rewrite H.
Qed.

(** C4, as the code has it. With a frame size that is not negative,
    whatever the state and the sequence of inputs, every frame the callback
    receives has exactly [bufferSize] samples and its [bufferLength] field
    is [bufferSize]. *)
Theorem delivered_frames_have_frame_size p inputs :
  0 <= bufferSize p ->
  Forall (fun f : frame sample rate =>
            Z.of_nat (length (samples f)) = bufferSize p
            /\ bufferLength f = bufferSize p)
         (onmessage <$> (run p inputs).2).
Proof.
  intros Hpos. apply Forall_fmap, Forall_forall. intros m Hm. simpl.
  split; by apply (run_frame_length p inputs).
Qed.

(** C5, as the code has it. An input without a channel changes nothing
    and posts nothing, in every state. A block of no samples changes
    nothing and posts nothing exactly in the states whose buffer is shorter
    than a frame; in the others it posts a frame. *)
Theorem process_input_empty p others :
  process_input p [] = (p, [])
  /\ (process_input p ([] :: others) = (p, [])
      <-> Z.of_nat (length (buffer p)) < bufferSize p).
Proof.
  split; [done|]. destruct p as [size buf r]. unfold process_input. simpl.
  rewrite app_nil_r.
  destruct (Z.geb_spec (Z.of_nat (length buf)) size) as [Hge|Hlt];
    split; intros Heq; done || lia.
Qed.

End AccumulatorClaims.

(** ** Concrete runs of the accumulator *)
Module Runs.
Import Fixtures.

(** C1, counterexample. One push of five samples at frame size two posts a
    single frame and leaves three samples, a full frame among them. *)
Lemma oversized_push_keeps_full_frame :
  process_input p2 [five] =
    ({| bufferSize := 2; buffer := [3; 4; 5]; sampleRate := 48000 |},
     [ {| msg_samples := [1; 2]; msg_sampleRate := 48000 |} ])
  /\ ~ (Z.of_nat (length (buffer (process_input p2 [five]).1))
        < bufferSize p2).
Proof. split; [reflexivity | vm_compute; discriminate]. Qed.

Lemma process_input_single_emission_witness :
  0 < bufferSize p2
  /\ (length (process_input p2 [five]).2 <= 1)%nat.
Proof.
  split; [reflexivity|].
  apply (process_input_single_emission p2 five []). reflexivity.
Defined.

(** C2, counterexample. At frame size two a block of five samples, two
    and a half frames, gives one frame and leaves three samples: neither
    two frames nor one sample. *)
Lemma two_and_a_half_frames_give_one :
  2 * Z.of_nat (length five) = 5 * bufferSize p2
  /\ length (process_input p2 [five]).2 = 1%nat
  /\ length (buffer (process_input p2 [five]).1) = 3%nat
  /\ ~ (length (process_input p2 [five]).2 = 2%nat
        /\ 2 * Z.of_nat (length (buffer (process_input p2 [five]).1))
           = bufferSize p2).
Proof. repeat split. intros [Htwo _]. vm_compute in Htwo. discriminate. Qed.

Lemma process_input_oversized_block_witness :
  process_input (new_processor 4 44100) [[1; 2; 3; 4; 5; 6; 7; 8; 9; 10]] =
    ({| bufferSize := 4; buffer := [5; 6; 7; 8; 9; 10]; sampleRate := 44100 |},
     [ {| msg_samples := [1; 2; 3; 4]; msg_sampleRate := 44100 |} ]).
Proof.
  apply (process_input_oversized_block 4 44100
           [1; 2; 3; 4; 5; 6; 7; 8; 9; 10] []); reflexivity.
Defined.

Lemma delivered_frames_have_frame_size_witness :
  Forall (fun f : frame Z Z =>
            Z.of_nat (length (samples f)) = 2 /\ bufferLength f = 2)
         (onmessage <$> (run p2 [[[1; 2; 3]]; []; [[4; 5]; [0; 0]]; [[6]]]).2).
Proof.
  apply (delivered_frames_have_frame_size p2). vm_compute. discriminate.
Defined.

(** C5, counterexample. After the push of five samples the buffer holds
    three; a block of no samples then posts a frame and shortens the
    buffer. *)
Lemma empty_block_posts_frame :
  (process_input p2 [five]).1 =
    {| bufferSize := 2; buffer := [3; 4; 5]; sampleRate := 48000 |}
  /\ process_input (process_input p2 [five]).1 [[]] =
     ({| bufferSize := 2; buffer := [5]; sampleRate := 48000 |},
      [ {| msg_samples := [3; 4]; msg_sampleRate := 48000 |} ])
  /\ process_input (process_input p2 [five]).1 [[]]
     <> ((process_input p2 [five]).1, []).
Proof. repeat split; try reflexivity. vm_compute. discriminate. Qed.

(** The undersized accumulation of the specification: three blocks of 30
    at frame size 100 post nothing and leave 90 pending, a fourth of 10
    posts one frame and leaves none. *)
Example undersized_accumulation :
  let p := new_processor 100 (48000 : Z) in
  let b n := [replicate n (0 : Z)] in
  let r3 := run p [b 30%nat; b 30%nat; b 30%nat] in
  let r4 := process_input r3.1 (b 10%nat) in
  r3.2 = [] /\ length (buffer r3.1) = 90%nat
  /\ length r4.2 = 1%nat /\ buffer r4.1 = [].
Proof. vm_compute. done. Qed.

(** A negative frame size reaches the slices as an index from the end:
    with [-1] every push posts all but its last sample. *)
Example negative_frame_size_push :
  process_input (new_processor (-1) (48000 : Z)) [[1; 2; 3]] =
    ({| bufferSize := -1; buffer := [3]; sampleRate := 48000 |},
     [ {| msg_samples := [1; 2]; msg_sampleRate := 48000 |} ]).
Proof. reflexivity. Qed.

End Runs.

(** ** Claims about the session lifecycle *)
Section LifecycleClaims.
Context {rate : Type}.
Variable h : host rate.
Implicit Types (options : option (gmap string jsval)) (tr : list event).
Implicit Types (s : session rate).

Lemma call_of_returned (cs : list host_call) :
  call_of <$> (Returned <$> cs) = cs.
Proof. induction cs as [|c cs IH]; [done|]. rewrite !fmap_cons, IH. done. Qed.

(** The calls a line has made are a prefix of the line. *)
Lemma forEach_call_prefix (cs : list host_call) tr :
  exists evs, (forEach (call h) cs tr).2 = tr ++ evs
              /\ (call_of <$> evs) `prefix_of` cs.
Proof.
  destruct (first_throw h cs) as [Hall|(pre & c & post & e & -> & Hpre & Hc)].
  - rewrite forEach_call_returns by done. exists (Returned <$> cs).
    split; [done|]. by rewrite call_of_returned.
  - rewrite (forEach_call_throws h pre c post e) by done.
    exists ((Returned <$> pre) ++ [Threw c e]). split; [done|].
    rewrite fmap_app, call_of_returned. simpl.
    exists post. by rewrite <- app_assoc.
Qed.

(** A rejected start rejects with what one of its host calls threw, and
    that call is the last of the trace. *)
Lemma rejection_is_host_error options tr e tr' :
  streamMicrophone h options tr = (inl e, tr') ->
  exists c, c ∈ start_calls h options /\ throws h c = Some e
            /\ last tr' = Some (Threw c e).
Proof.
  intros (pre & c & post & Hcs & _ & Hc & ->)%streamMicrophone_rejected.
  exists c. split; [|split; [done|]].
  - rewrite Hcs. apply elem_of_app. right. by left.
  - by rewrite app_assoc, last_snoc.
Qed.

(** The trace of a resolved start has the construction of the worklet
    node with the configured frame size. *)
Lemma worklet_node_in_trace options tr :
  Returned (NewAudioWorkletNode (configured_bufferSize options))
    ∈ tr ++ (Returned <$> start_calls h options).
Proof.
  apply elem_of_app. right. unfold start_calls. rewrite !fmap_cons.
  do 4 right. left.
Qed.

(** C6, as the code has it. A frame size that is zero or negative is not
    rejected at session start. Zero is replaced by 4096; a negative size
    is kept, given to the worklet node and so to the accumulator. The start
    resolves when every host call returns, and a rejection carries the
    error of a host call. *)
Theorem start_keeps_nonpositive_frame_size {sample : Type}
    (o : gmap string jsval) (n : Z) tr :
  get_prop o "bufferSize" = VNum n ->
  n <= 0 ->
  let size := if n =? 0 then 4096 else n in
  configured_bufferSize (Some o) = VNum size
  /\ (Forall (returns h) (start_calls h (Some o)) ->
      exists s tr',
        streamMicrophone h (Some o) tr = (inr s, tr')
        /\ session_bufferSize s = VNum size
        /\ Returned (NewAudioWorkletNode (VNum size)) ∈ tr'
        /\ session_processor (sample := sample) s
           = Some (new_processor size (context_rate h)))
  /\ (forall e tr',
        streamMicrophone h (Some o) tr = (inl e, tr') ->
        exists c, c ∈ start_calls h (Some o) /\ throws h c = Some e).
Proof.
  intros Hget Hn size.
  assert (Hsize : configured_bufferSize (Some o) = VNum size).
  { unfold configured_bufferSize, js_or. simpl. rewrite Hget. simpl.
    subst size. by destruct (n =? 0). }
  split; [done|]. split.
  - intros Hall. eexists _, _. split; [by apply streamMicrophone_resolves|].
    pose proof (worklet_node_in_trace (Some o) tr) as Hin.
    unfold session_processor. cbn [session_bufferSize started_session].
    rewrite Hsize in Hin |- *. done.
  - intros e tr' (c & Hin & Hc & _)%rejection_is_host_error. by exists c.
Qed.

(** C7. The frame size of a session is 4096 when [options.bufferSize] is
    absent, zero or otherwise falsy, and is the supplied value itself in
    every other case, a negative number included. It is the size the
    worklet node is constructed with. *)
Theorem session_frame_size options tr s tr' :
  streamMicrophone h options tr = (inr s, tr') ->
  let v := get_prop (default ∅ options) "bufferSize" in
  (truthy v = false -> session_bufferSize s = VNum 4096)
  /\ (truthy v = true -> session_bufferSize s = v)
  /\ (options = None \/ default ∅ options !! "bufferSize" = None \/ v = VNum 0 ->
      session_bufferSize s = VNum 4096)
  /\ (forall n, v = VNum n -> n < 0 -> session_bufferSize s = VNum n)
  /\ Returned (NewAudioWorkletNode (session_bufferSize s)) ∈ tr'.
Proof.
  intros (-> & -> & _)%streamMicrophone_resolved v.
  cbn [session_bufferSize started_session].
  split; [|split; [|split; [|split]]]; [| | | |apply worklet_node_in_trace];
    unfold configured_bufferSize, js_or; fold v.
  - by intros ->.
  - by intros ->.
  - intros Hfalsy. assert (truthy v = false) as ->; [|done].
    subst v. destruct Hfalsy as [->|[Habsent|Hzero]].
    + done.
    + unfold get_prop. by rewrite Habsent.
    + by rewrite Hzero.
  - intros n Hv Hn. rewrite Hv. simpl.
    destruct (Z.eqb_spec n 0); [lia | done].
Qed.

(** C8. For a session that [streamMicrophone] returned, [stop] makes its
    host calls in this order: disconnect the worklet node, disconnect the
    source node, close the audio context, revoke the blob URL made at
    start, stop each track of the granted stream. It makes all of them
    when none throws. *)
Theorem stop_teardown_order options tr0 s tr1 :
  streamMicrophone h options tr0 = (inr s, tr1) ->
  let order :=
    [WorkletDisconnect; SourceDisconnect; ContextClose;
     RevokeObjectURL (blob_url h)]
    ++ (TrackStop <$> getTracks (granted_stream h options)) in
  (exists evs, (stop h s tr1).2 = tr1 ++ evs
               /\ (call_of <$> evs) `prefix_of` order)
  /\ (Forall (returns h) order ->
      stop h s tr1 = (inr (), tr1 ++ (Returned <$> order))).
Proof.
  intros (-> & _ & _)%streamMicrophone_resolved order. split.
  - rewrite stop_calls. apply forEach_call_prefix.
  - intros Hall. rewrite stop_calls. by apply forEach_call_returns.
Qed.

(** C9, as the code has it. When a start fails after resources were
    acquired, the promise rejects with the error of the failing host call
    and nothing has been given back: the trace holds no release, and every
    resource acquired by the calls that returned is still held. *)
Theorem failed_start_releases_nothing options e tr' :
  streamMicrophone h options [] = (inl e, tr') ->
  exists pre c,
    tr' = (Returned <$> pre) ++ [Threw c e]
    /\ throws h c = Some e
    /\ Forall (fun ev => released_by (call_of ev) = []) tr'
    /\ held h tr' = concat (acquired_by h <$> pre).
Proof.
  intros (pre & c & post & Hcs & _ & Hc & ->)%streamMicrophone_rejected.
  pose proof (start_calls_release_nothing h options) as Hrel.
  rewrite Hcs in Hrel. apply Forall_app in Hrel as [Hpre Hrel].
  apply Forall_cons in Hrel as [Hrc _].
  exists pre, c. simpl. repeat split; try done.
  - apply Forall_app. split; [|by repeat constructor].
    apply Forall_fmap. by eapply Forall_impl.
  - unfold held. rewrite foldl_app. simpl. by rewrite held_acquiring.
Qed.

(** C10, as the code has it. When the display is the source and the
    granted stream has no audio track, the start makes no check of the
    tracks: it sets up the context, the worklet and the source node on that
    stream and resolves when every host call returns; a rejection carries
    the error of the host call that threw, the last of the trace. *)
Theorem display_without_audio_not_checked options tr :
  from_display options = true ->
  getAudioTracks (display_stream h) = [] ->
  (Forall (returns h) (start_calls h options) ->
   exists s,
     streamMicrophone h options tr
       = (inr s, tr ++ (Returned <$> start_calls h options))
     /\ stream s = display_stream h)
  /\ (forall e tr',
        streamMicrophone h options tr = (inl e, tr') ->
        exists c, c ∈ start_calls h options /\ throws h c = Some e
                  /\ last tr' = Some (Threw c e)).
Proof.
  intros Hdisplay _. split.
  - intros Hall. eexists. split; [by apply streamMicrophone_resolves|].
    simpl. unfold granted_stream. by rewrite Hdisplay.
  - intros e tr'. apply rejection_is_host_error.
Qed.

End LifecycleClaims.

(** ** Concrete sessions *)
Module Sessions.
Import Fixtures.

(** C6, counterexample. A frame size of [-1] is not rejected: the start
    resolves, the worklet node is constructed with [-1], and the processor
    of the session has [-1] as its frame size. *)
Lemma negative_frame_size_starts :
  streamMicrophone granting negative_options [] =
    (inr {| stream := mic; workletUrl := "blob:worklet";
            session_bufferSize := VNum (-1); session_sampleRate := 48000 |},
     [Returned GetUserMedia; Returned NewAudioContext;
      Returned CreateObjectURL; Returned (AddModule "blob:worklet");
      Returned (NewAudioWorkletNode (VNum (-1)));
      Returned (CreateMediaStreamSource mic);
      Returned SourceConnect; Returned WorkletConnect])
  /\ session_processor (sample := Z) (started_session granting negative_options)
     = Some (new_processor (-1) 48000).
Proof. split; vm_compute; reflexivity. Qed.

Lemma start_keeps_nonpositive_frame_size_witness :
  get_prop {[ "bufferSize" := VNum (-1) ]} "bufferSize" = VNum (-1)
  /\ -1 <= 0
  /\ configured_bufferSize negative_options = VNum (-1).
Proof.
  split; [reflexivity|]. split; [lia|].
  apply (start_keeps_nonpositive_frame_size granting (sample := Z)
           {[ "bufferSize" := VNum (-1) ]} (-1) []); [reflexivity | lia].
Defined.

(** A frame size of zero gives the default. *)
Example zero_frame_size_defaults :
  (streamMicrophone granting zero_options []).1 =
    inr {| stream := mic; workletUrl := "blob:worklet";
           session_bufferSize := VNum 4096; session_sampleRate := 48000 |}.
Proof. vm_compute. reflexivity. Qed.

Lemma session_frame_size_witness :
  streamMicrophone granting negative_options [] =
    (inr (started_session granting negative_options),
     Returned <$> start_calls granting negative_options)
  /\ session_bufferSize (started_session granting negative_options)
     = VNum (-1).
Proof.
  split; [vm_compute; reflexivity|].
  refine (proj1 (proj2 (proj2 (proj2
    (session_frame_size granting negative_options []
       (started_session granting negative_options)
       (Returned <$> start_calls granting negative_options) _)))) (-1) _ _).
  - vm_compute. reflexivity.
  - reflexivity.
  - reflexivity.
Defined.

Lemma stop_teardown_order_witness :
  streamMicrophone granting display_options [] =
    (inr (started_session granting display_options),
     Returned <$> start_calls granting display_options)
  /\ stop granting (started_session granting display_options)
       (Returned <$> start_calls granting display_options)
     = (inr (),
        (Returned <$> start_calls granting display_options)
        ++ [Returned WorkletDisconnect; Returned SourceDisconnect;
            Returned ContextClose; Returned (RevokeObjectURL "blob:worklet");
            Returned (TrackStop (Track 2 VideoTrack));
            Returned (TrackStop (Track 3 AudioTrack))]).
Proof.
  split; [vm_compute; reflexivity|].
  refine (proj2 (stop_teardown_order granting display_options []
            (started_session granting display_options)
            (Returned <$> start_calls granting display_options) _) _).
  - vm_compute. reflexivity.
  - repeat constructor.
Defined.

(** After start and stop nothing is held. *)
Example stop_releases_everything :
  held granting
    ((Returned <$> start_calls granting display_options)
     ++ (Returned <$> teardown_calls (started_session granting display_options)))
  = [].
Proof. vm_compute. reflexivity. Qed.

(** C9, counterexample. The worklet module fails to load after the
    microphone, the audio context and the blob URL were acquired: the
    promise rejects and the three are still held. No track was stopped, the
    context was not closed, the URL was not revoked. *)
Lemma failed_start_keeps_resources :
  streamMicrophone module_rejecting None [] =
    (inl "AbortError",
     [Returned GetUserMedia; Returned NewAudioContext;
      Returned CreateObjectURL; Threw (AddModule "blob:worklet") "AbortError"])
  /\ held module_rejecting (streamMicrophone module_rejecting None []).2
     = [DeviceTrack (Track 1 AudioTrack); Context; BlobURL "blob:worklet"].
Proof. split; vm_compute; reflexivity. Qed.

Lemma failed_start_releases_nothing_witness :
  exists pre c,
    (streamMicrophone module_rejecting None []).2
      = (Returned <$> pre) ++ [Threw c "AbortError"]
    /\ throws module_rejecting c = Some "AbortError"
    /\ Forall (fun ev => released_by (call_of ev) = [])
         (streamMicrophone module_rejecting None []).2
    /\ held module_rejecting (streamMicrophone module_rejecting None []).2
       = concat (acquired_by module_rejecting <$> pre).
Proof.
  apply (failed_start_releases_nothing module_rejecting None).
  vm_compute. reflexivity.
Defined.

(** C10, counterexample. The display is shared without audio. On a host
    that takes such a stream the start resolves, with a session on the
    stream that has no audio track. On a host whose
    [createMediaStreamSource] refuses it, the start goes through five host
    calls and rejects with what that sixth call threw. *)
Lemma display_without_audio_starts :
  getAudioTracks screen_without_audio = []
  /\ streamMicrophone silent_display display_options [] =
       (inr {| stream := screen_without_audio; workletUrl := "blob:worklet";
               session_bufferSize := VNum 4096; session_sampleRate := 48000 |},
        [Returned GetDisplayMedia; Returned NewAudioContext;
         Returned CreateObjectURL; Returned (AddModule "blob:worklet");
         Returned (NewAudioWorkletNode (VNum 4096));
         Returned (CreateMediaStreamSource screen_without_audio);
         Returned SourceConnect; Returned WorkletConnect])
  /\ streamMicrophone silent_display_strict display_options [] =
       (inl "InvalidStateError",
        [Returned GetDisplayMedia; Returned NewAudioContext;
         Returned CreateObjectURL; Returned (AddModule "blob:worklet");
         Returned (NewAudioWorkletNode (VNum 4096));
         Threw (CreateMediaStreamSource screen_without_audio)
           "InvalidStateError"]).
Proof. repeat split; vm_compute; reflexivity. Qed.

Lemma display_without_audio_not_checked_witness :
  from_display display_options = true
  /\ getAudioTracks (display_stream silent_display) = []
  /\ exists s,
       streamMicrophone silent_display display_options []
         = (inr s, [] ++ (Returned <$> start_calls silent_display display_options))
       /\ stream s = display_stream silent_display.
Proof.
  split; [vm_compute; reflexivity|]. split; [reflexivity|].
  apply (display_without_audio_not_checked silent_display display_options []).
  - vm_compute. reflexivity.
  - reflexivity.
  - repeat constructor.
Defined.

End Sessions.

(** ** The accumulator over a whole stream *)
Section AccumulatorStream.
Context {sample rate : Type}.
Implicit Types (p : processor sample rate) (input : list (list sample)).
Implicit Types (inputs : list (list (list sample))).
Implicit Types (ms : list (message sample rate)).

(** One push posts one message at most, whatever the frame size. *)
Lemma process_input_posts_at_most_one p input :
  (length (process_input p input).2 <= 1)%nat.
Proof.
  destruct input as [|block others]; simpl; [lia|].
  destruct (_ >=? _); simpl; lia.
Qed.

(** Messages of [n] samples each hold [n] samples per message together. *)
Lemma messages_total_length ms (n : Z) :
  Forall (fun m => Z.of_nat (length (msg_samples m)) = n) ms ->
  Z.of_nat (length (concat (msg_samples <$> ms))) = n * Z.of_nat (length ms).
Proof.
  induction 1 as [|m ms Hm _ IH]; [simpl; lia|].
  rewrite fmap_cons. cbn [concat]. rewrite length_app, Nat2Z.inj_add, IH, Hm.
  change (length (m :: ms)) with (S (length ms)). lia.
Qed.

(** The samples posted and kept add up to the samples held and received. *)
Lemma run_sample_count p inputs :
  Z.of_nat (length (concat (msg_samples <$> (run p inputs).2)))
  + Z.of_nat (length (buffer (run p inputs).1))
  = Z.of_nat (length (buffer p))
    + Z.of_nat (length (concat (block_of <$> inputs))).
Proof.
  pose proof (f_equal length (run_conserves p inputs)) as H.
  rewrite !length_app in H. lia.
Qed.

Lemma run_frames_forall p inputs :
  0 <= bufferSize p ->
  Forall (fun m => Z.of_nat (length (msg_samples m)) = bufferSize p)
         (run p inputs).2.
Proof.
  intros Hpos. apply Forall_forall. intros m Hm.
  by apply (run_frame_length p inputs).
Qed.

(** A block no longer than a frame, pushed on a buffer shorter than a
    frame, leaves a buffer shorter than a frame. *)
Lemma process_input_keeps_short p input :
  0 < bufferSize p ->
  Z.of_nat (length (buffer p)) < bufferSize p ->
  Z.of_nat (length (block_of input)) <= bufferSize p ->
  Z.of_nat (length (buffer (process_input p input).1)) < bufferSize p.
Proof.
  intros Hpos Hbuf Hblock. destruct input as [|block others]; [done|].
  simpl in Hblock.
  destruct (Z.lt_ge_cases (Z.of_nat (length (buffer p ++ block)))
              (bufferSize p)) as [Hlt|Hge].
  - by rewrite process_input_short.
  - rewrite process_input_full by done. simpl.
    rewrite JSArrayFacts.slice_from_length by lia.
    rewrite length_app in *. lia.
Qed.

Lemma run_keeps_short p inputs :
  0 < bufferSize p ->
  Z.of_nat (length (buffer p)) < bufferSize p ->
  Forall (fun input => Z.of_nat (length (block_of input)) <= bufferSize p)
         inputs ->
  Z.of_nat (length (buffer (run p inputs).1)) < bufferSize p.
Proof.
  intros Hpos Hbuf Hall. revert p Hpos Hbuf Hall.
  induction inputs as [|input rest IH]; intros p Hpos Hbuf Hall; [done|].
  inversion Hall as [|? ? Hin Hrest]; subst. simpl.
  pose proof (process_input_keeps_short p input Hpos Hbuf Hin) as Hshort.
  pose proof (process_input_config p input) as [Hc _].
  destruct (process_input p input) as [p1 out1]. simpl in *.
  specialize (IH p1). destruct (run p1 rest) as [p2 out2]. simpl in *.
  rewrite <- Hc. apply IH; rewrite Hc; done.
Qed.

(** X1. Blocks no longer than a frame: from a buffer shorter than a
    frame, the buffer stays shorter than a frame, the number of frames posted is the
    quotient of the samples held and received by the frame size, and the
    samples left pending are the remainder. *)
Theorem run_small_blocks_frame_count p inputs :
  0 < bufferSize p ->
  Z.of_nat (length (buffer p)) < bufferSize p ->
  Forall (fun input => Z.of_nat (length (block_of input)) <= bufferSize p)
         inputs ->
  let total := Z.of_nat (length (buffer p))
               + Z.of_nat (length (concat (block_of <$> inputs))) in
  Z.of_nat (length (run p inputs).2) = total / bufferSize p
  /\ Z.of_nat (length (buffer (run p inputs).1)) = total mod bufferSize p
  /\ Z.of_nat (length (buffer (run p inputs).1)) < bufferSize p.
Proof.
  intros Hpos Hbuf Hall total.
  pose proof (run_keeps_short p inputs Hpos Hbuf Hall) as Hshort.
  pose proof (run_sample_count p inputs) as Hcount.
  rewrite (messages_total_length _ (bufferSize p)) in Hcount
    by (apply run_frames_forall; lia).
  fold total in Hcount.
  set (q := Z.of_nat (length (run p inputs).2)) in *.
  set (r := Z.of_nat (length (buffer (run p inputs).1))) in *.
  assert (0 <= r) by (subst r; lia).
  split; [|split; [|done]].
  - apply (Z.div_unique_pos total (bufferSize p) q r); lia.
  - apply (Z.mod_unique_pos total (bufferSize p) q r); lia.
Qed.

(** Equal chunks, cut one after the other from the front of a list. *)
Lemma chunk_lookup {A} (chunks : list (list A)) (rest all : list A)
    (n k : nat) (x : list A) :
  concat chunks ++ rest = all ->
  Forall (fun c => length c = n) chunks ->
  chunks !! k = Some x ->
  x = take n (drop (k * n) all).
Proof.
  revert all k x.
  induction chunks as [|c chunks IH]; intros all k x Hall Hlen Hk.
  - by rewrite lookup_nil in Hk.
  - inversion Hlen as [|? ? Hc Hrest]; subst all. cbn [concat].
    rewrite <- app_assoc. destruct k as [|k].
    + injection Hk as <-. rewrite drop_0, <- Hc. by rewrite take_app_length.
    + change (S k * n)%nat with (n + k * n)%nat.
      rewrite drop_app_add'; [|done]. by eapply IH.
Qed.

(** X2. With a frame size that is not negative, the frames come out as
    the successive chunks of the sample stream: frame number [k], counted
    from zero, holds the [bufferSize] samples that follow the first
    [k * bufferSize] of what was held and received. *)
Theorem run_frame_is_chunk p inputs (k : nat) (m : message sample rate) :
  0 <= bufferSize p ->
  (run p inputs).2 !! k = Some m ->
  msg_samples m
  = take (Z.to_nat (bufferSize p))
      (drop (k * Z.to_nat (bufferSize p))
         (buffer p ++ concat (block_of <$> inputs))).
Proof.
  intros Hpos Hk.
  apply (chunk_lookup (msg_samples <$> (run p inputs).2)
           (buffer (run p inputs).1)).
  - apply run_conserves.
  - apply Forall_fmap. eapply Forall_impl; [by apply run_frames_forall|].
    simpl. intros m' Hm'. lia.
  - by rewrite list_lookup_fmap, Hk.
Qed.

(** X3. Whatever the frame size and the inputs, a run posts no more
    frames than it was given inputs: the callback is reached once per call
    of [process] at most. *)
Theorem run_posts_at_most_one_per_input p inputs :
  (length (run p inputs).2 <= length inputs)%nat.
Proof.
  revert p. induction inputs as [|input rest IH]; intros p; simpl; [lia|].
  pose proof (process_input_posts_at_most_one p input) as H1.
  destruct (process_input p input) as [p1 out1].
  specialize (IH p1). destruct (run p1 rest) as [p2 out2].
  simpl in *. rewrite length_app. lia.
Qed.

(** X4. Blocks at least as long as a frame: every push posts exactly one
    frame, so the pending samples are those held and received less one
    frame per input. The buffer never gets shorter, and grows by whatever
    each block has beyond a frame. *)
Theorem run_large_blocks_backlog p inputs :
  0 < bufferSize p ->
  Forall (fun input => bufferSize p <= Z.of_nat (length (block_of input)))
         inputs ->
  length (run p inputs).2 = length inputs
  /\ Z.of_nat (length (buffer (run p inputs).1))
     = Z.of_nat (length (buffer p))
       + Z.of_nat (length (concat (block_of <$> inputs)))
       - bufferSize p * Z.of_nat (length inputs)
  /\ Z.of_nat (length (buffer p))
     <= Z.of_nat (length (buffer (run p inputs).1)).
Proof.
  intros Hpos Hall.
  assert (Hn : length (run p inputs).2 = length inputs).
  { revert p Hpos Hall.
    induction inputs as [|input rest IH]; intros p Hpos Hall; [done|].
    inversion Hall as [|? ? Hin Hrest]; subst. simpl.
    destruct input as [|block others]; simpl in Hin; [lia|].
    rewrite process_input_full by (rewrite length_app; lia).
    set (p1 := {| bufferSize := bufferSize p;
                  buffer := JSArray.slice_from (buffer p ++ block) (bufferSize p);
                  sampleRate := sampleRate p |}).
    specialize (IH p1 Hpos Hrest).
    destruct (run p1 rest) as [p2 out2]. simpl in *. by rewrite IH. }
  pose proof (run_sample_count p inputs) as Hcount.
  rewrite (messages_total_length _ (bufferSize p)) in Hcount
    by (apply run_frames_forall; lia).
  rewrite Hn in Hcount.
  assert (Hsum : bufferSize p * Z.of_nat (length inputs)
                 <= Z.of_nat (length (concat (block_of <$> inputs)))).
  { clear Hcount Hn. induction Hall as [|input rest Hin _ IH]; [simpl; lia|].
    rewrite fmap_cons. cbn [concat]. rewrite length_app, Nat2Z.inj_add.
    change (length (input :: rest)) with (S (length rest)). lia. }
  repeat split; [done | lia | lia].
Qed.

(** X5. A negative frame size is an index from the end for both slices:
    every push that has a channel posts a frame, an empty one included.
    The frame holds all the samples but the last [- bufferSize], which stay
    in the buffer; the buffer never holds more than [- bufferSize]. *)
Theorem process_input_negative_size p block others :
  bufferSize p < 0 ->
  let buf := buffer p ++ block in
  let keep := Z.to_nat (Z.min (- bufferSize p) (Z.of_nat (length buf))) in
  process_input p (block :: others) =
    ({| bufferSize := bufferSize p;
        buffer := drop (length buf - keep) buf;
        sampleRate := sampleRate p |},
     [ {| msg_samples := take (length buf - keep) buf;
          msg_sampleRate := sampleRate p |} ])
  /\ length (drop (length buf - keep) buf) = keep.
Proof.
  intros Hneg buf keep.
  rewrite process_input_full by (fold buf; lia). fold buf.
  rewrite JSArrayFacts.slice_0, JSArrayFacts.slice_from_drop.
  unfold JSArray.relative_index.
  destruct (Z.ltb_spec (bufferSize p) 0) as [_|?]; [|lia].
  assert (Hk : Z.to_nat (Z.max (Z.of_nat (length buf) + bufferSize p) 0)
               = (length buf - keep)%nat) by (subst keep; lia).
  rewrite Hk. split; [done|]. rewrite length_drop. subst keep. lia.
Qed.

End AccumulatorStream.

(** ** The start and the stop as a whole *)
Section LifecycleMore.
Context {rate : Type}.
Variable h : host rate.
Implicit Types (options : option (gmap string jsval)) (tr : list event).
Implicit Types (s : session rate) (cs : list host_call) (r : resource).

(** The display is the source exactly when [options.fromDisplay] is
    truthy. *)
Lemma from_display_truthy options :
  from_display options = truthy (get_prop (default ∅ options) "fromDisplay").
Proof.
  unfold from_display, js_or.
  by destruct (truthy (get_prop (default ∅ options) "fromDisplay")) eqn:E.
Qed.

(** The configured frame size is truthy. *)
Lemma configured_bufferSize_truthy options :
  truthy (configured_bufferSize options) = true.
Proof.
  unfold configured_bufferSize, js_or.
  by destruct (truthy (get_prop (default ∅ options) "bufferSize")) eqn:E.
Qed.

(** A start makes at least one host call, and the calls it makes are the
    first of [start_calls], in order. *)
Lemma streamMicrophone_trace options tr :
  exists ev evs,
    (streamMicrophone h options tr).2 = tr ++ ev :: evs
    /\ (call_of <$> (ev :: evs)) `prefix_of` start_calls h options.
Proof.
  rewrite streamMicrophone_calls.
  destruct (first_throw h (start_calls h options))
    as [Hall|(pre & c & post & e & Hcs & Hpre & Hc)].
  - rewrite forEach_call_returns by done. unfold start_calls at 1 2.
    rewrite fmap_cons. eexists _, _. split; [done|].
    rewrite <- fmap_cons, call_of_returned. done.
  - rewrite Hcs, (forEach_call_throws h pre c post e) by done.
    destruct pre as [|c0 pre].
    + exists (Threw c e), []. split; [done|]. by exists post.
    + exists (Returned c0), ((Returned <$> pre) ++ [Threw c e]).
      split; [done|].
      rewrite fmap_cons, fmap_app, call_of_returned.
      exists post. cbn [call_of fmap list_fmap app].
      by rewrite <- app_assoc.
Qed.

(** The calls of a start after the first. *)
Lemma start_calls_tail options :
  exists acquire rest,
    start_calls h options = acquire :: rest
    /\ acquire = (if from_display options then GetDisplayMedia else GetUserMedia)
    /\ Forall (fun c => c <> GetDisplayMedia /\ c <> GetUserMedia) rest.
Proof. eexists _, _. split; [done|]. split; [done|]. by repeat constructor. Qed.

(** X6. A start asks for one stream, with its first host call: the
    display when [options.fromDisplay] is truthy, the microphone in every
    other case. No later call of the start asks for either. *)
Theorem start_asks_for_one_source options tr :
  exists ev evs,
    (streamMicrophone h options tr).2 = tr ++ ev :: evs
    /\ call_of ev
       = (if truthy (get_prop (default ∅ options) "fromDisplay")
          then GetDisplayMedia else GetUserMedia)
    /\ Forall (fun ev' => call_of ev' <> GetDisplayMedia
                          /\ call_of ev' <> GetUserMedia) evs.
Proof.
  destruct (streamMicrophone_trace options tr) as (ev & evs & Htr & Hpre).
  destruct (start_calls_tail options) as (acquire & rest & Hcs & Hacq & Hrest).
  rewrite Hcs, fmap_cons in Hpre. exists ev, evs. split; [done|].
  rewrite <- from_display_truthy, <- Hacq. split.
  - by apply prefix_cons_inv_1 in Hpre.
  - apply prefix_cons_inv_2 in Hpre. destruct Hpre as [k ->].
    apply Forall_app in Hrest as [Hrest _]. by apply Forall_fmap in Hrest.
Qed.

(** X7. When the request for the stream is refused, the start rejects
    with the error of that request and makes no other host call: no audio
    context, no blob URL, nothing held. *)
Theorem refused_source_rejects_at_once options (e : js_error) :
  throws h (if truthy (get_prop (default ∅ options) "fromDisplay")
            then GetDisplayMedia else GetUserMedia) = Some e ->
  exists acquire,
    streamMicrophone h options [] = (inl e, [Threw acquire e])
    /\ held h (streamMicrophone h options []).2 = [].
Proof.
  rewrite <- from_display_truthy. intros He.
  assert (Hrun : streamMicrophone h options []
                 = (inl e, [Threw (if from_display options
                                   then GetDisplayMedia else GetUserMedia) e])).
  { rewrite streamMicrophone_calls.
    destruct (start_calls_tail options) as (acquire & rest & -> & -> & _).
    pose proof (forEach_call_throws h [] _ rest e [] (Forall_nil_2 _) He)
      as Hthrow.
    cbn [app fmap list_fmap] in Hthrow. by rewrite Hthrow. }
  eexists. split; [exact Hrun|]. by rewrite Hrun.
Qed.

(** A [stop] that returns has made every call of the teardown. *)
Lemma stop_returned s tr tr' :
  stop h s tr = (inr (), tr') ->
  tr' = tr ++ (Returned <$> teardown_calls s).
Proof.
  rewrite stop_calls.
  destruct (first_throw h (teardown_calls s))
    as [Hall|(pre & c & post & e & Hcs & Hpre & Hc)].
  - rewrite forEach_call_returns by done. by intros [= <-].
  - rewrite Hcs, (forEach_call_throws h pre c post e) by done. discriminate.
Qed.

(** While nothing is acquired, what is held is what was held and has not
    been given back. *)
Lemma held_releasing (acc : list resource) cs r :
  Forall (fun c => acquired_by h c = []) cs ->
  r ∈ foldl (held_step h) acc (Returned <$> cs)
  <-> r ∈ acc /\ forall c, c ∈ cs -> r ∉ released_by c.
Proof.
  intros Hcs. revert acc.
  induction Hcs as [|c cs Hc _ IH]; intros acc.
  - simpl. split; [|by intros [? _]]. intros Hr. split; [done|].
    intros c Hin. by apply elem_of_nil in Hin.
  - rewrite fmap_cons. cbn [foldl held_step]. rewrite Hc, app_nil_r, IH.
    rewrite list_elem_of_difference. split.
    + intros [[Hacc Hnc] Hrest]. split; [done|].
      intros c' [->|Hin]%elem_of_cons; auto.
    + intros [Hacc Hall]. repeat split; [done| |].
      * apply Hall. by left.
      * intros c' Hin. apply Hall. by right.
Qed.

Lemma teardown_calls_acquire_nothing s :
  Forall (fun c => acquired_by h c = []) (teardown_calls s).
Proof.
  unfold teardown_calls. apply Forall_app. split; [by repeat constructor|].
  apply Forall_forall. intros c Hin.
  apply list_elem_of_In, in_map_iff in Hin as (t & <- & _). done.
Qed.

(** What a start that resolved holds. *)
Lemma held_after_start options :
  held h (Returned <$> start_calls h options)
  = (DeviceTrack <$> getTracks (granted_stream h options))
    ++ [Context; BlobURL (blob_url h)].
Proof.
  unfold held. rewrite held_acquiring by apply start_calls_release_nothing.
  unfold start_calls, granted_stream.
  by destruct (from_display options).
Qed.

(** X8. A start that resolved, followed by a stop that returned, holds
    nothing: every track of the granted stream was stopped, the audio
    context was closed, and the blob URL made at start was revoked. *)
Theorem start_then_stop_holds_nothing options s tr1 tr2 :
  streamMicrophone h options [] = (inr s, tr1) ->
  stop h s tr1 = (inr (), tr2) ->
  held h tr2 = [].
Proof.
  intros (-> & -> & _)%streamMicrophone_resolved ->%stop_returned.
  apply elem_of_nil_inv. intros r.
  unfold held. cbn [app]. rewrite foldl_app.
  change (foldl (held_step h) [] (Returned <$> start_calls h options))
    with (held h (Returned <$> start_calls h options)).
  rewrite held_after_start.
  rewrite held_releasing by apply teardown_calls_acquire_nothing.
  intros [Hheld Hkept].
  apply elem_of_app in Hheld as [Htrack|Hrest].
  - apply list_elem_of_fmap in Htrack as (t & -> & Ht).
    apply (Hkept (TrackStop t)); [|by left].
    unfold teardown_calls. apply elem_of_app. right.
    apply list_elem_of_In, in_map, list_elem_of_In. done.
  - apply elem_of_cons in Hrest as [->|Hrest].
    + apply (Hkept ContextClose); [|by left].
      unfold teardown_calls. simpl. do 2 right. left.
    + apply list_elem_of_singleton in Hrest as ->.
      apply (Hkept (RevokeObjectURL (blob_url h))); [|by left].
      unfold teardown_calls. simpl. do 3 right. left.
Qed.

(** X9. [stop] keeps no record of having run. When the teardown calls
    return, a second [stop] makes all of them again, in the same order: the
    context is closed twice, the URL revoked twice, each track stopped
    twice. *)
Theorem second_stop_repeats_teardown s tr :
  Forall (returns h) (teardown_calls s) ->
  stop h s (stop h s tr).2
  = (inr (), tr ++ (Returned <$> teardown_calls s)
                ++ (Returned <$> teardown_calls s)).
Proof.
  intros Hall.
  rewrite (stop_calls h s tr), (forEach_call_returns h _ tr Hall). cbn [snd].
  rewrite stop_calls, forEach_call_returns by done. by rewrite <- app_assoc.
Qed.

(** X10. Only [bufferSize] and [fromDisplay] are read from the options:
    setting any other key changes neither the result nor the host calls of
    a start. *)
Theorem other_options_ignored (o : gmap string jsval) (key : string)
    (v : jsval) tr :
  key <> "bufferSize" ->
  key <> "fromDisplay" ->
  streamMicrophone h (Some (<[key := v]> o)) tr
  = streamMicrophone h (Some o) tr.
Proof.
  intros Hsize Hdisplay. unfold streamMicrophone, get_prop. simpl.
  by rewrite !lookup_insert_ne.
Qed.

(** X11. Whatever the options, the frame size a start gives to the
    worklet node is truthy: never zero, [undefined], [null], [NaN],
    [false] or the empty string. *)
Theorem worklet_size_truthy options (ev : event) (size : jsval) :
  ev ∈ (streamMicrophone h options []).2 ->
  call_of ev = NewAudioWorkletNode size ->
  truthy size = true /\ size <> VNum 0.
Proof.
  intros Hev Hcall.
  destruct (streamMicrophone_trace options []) as (ev0 & evs & Htr & Hpre).
  rewrite Htr in Hev. simpl in Hev.
  assert (Hin : call_of ev ∈ start_calls h options).
  { destruct Hpre as [k ->]. apply elem_of_app. left.
    by apply list_elem_of_fmap_2. }
  rewrite Hcall in Hin. unfold start_calls in Hin.
  assert (Hsize : size = configured_bufferSize options).
  { destruct (from_display options);
      repeat (apply elem_of_cons in Hin as [Heq|Hin];
              [by (discriminate Heq || injection Heq)|]);
      by apply elem_of_nil in Hin. }
  pose proof (configured_bufferSize_truthy options) as Htruthy.
  rewrite <- Hsize in Htruthy. split; [done|]. by intros ->.
Qed.

End LifecycleMore.

(** ** From the session to the frames *)
Section SessionFrames.
Context {sample rate : Type}.
Variable h : host rate.
Implicit Types (p : processor sample rate).
Implicit Types (inputs : list (list (list sample))).

(** Every message of a run carries the sample rate of the processor. *)
Lemma run_message_rate p inputs (m : message sample rate) :
  m ∈ (run p inputs).2 -> msg_sampleRate m = sampleRate p.
Proof.
  revert p. induction inputs as [|input rest IH]; intros p Hin; simpl in Hin.
  - by apply elem_of_nil in Hin.
  - pose proof (process_input_config p input) as [_ Hrate].
    assert (H1 : m ∈ (process_input p input).2 -> msg_sampleRate m = sampleRate p).
    { destruct input as [|block others]; simpl.
      - by intros ?%elem_of_nil.
      - destruct (_ >=? _); simpl.
        + by intros ->%list_elem_of_singleton.
        + by intros ?%elem_of_nil. }
    destruct (process_input p input) as [p1 out1].
    specialize (IH p1). destruct (run p1 rest) as [p2 out2].
    simpl in *. apply elem_of_app in Hin as [Hin|Hin]; [by apply H1|].
    rewrite <- Hrate. by apply IH.
Qed.

(** X12. The accumulator of a session starts with an empty buffer and
    the configured frame size, and every frame the callback receives
    carries the sample rate the audio context had at start. *)
Theorem session_frames_carry_context_rate
    (options : option (gmap string jsval)) tr (s : session rate) tr' p inputs :
  streamMicrophone h options tr = (inr s, tr') ->
  session_processor s = Some p ->
  buffer p = []
  /\ VNum (bufferSize p) = configured_bufferSize options
  /\ Forall (fun f : frame sample rate => frame_sampleRate f = context_rate h)
            (onmessage <$> (run p inputs).2).
Proof.
  intros (-> & _ & _)%streamMicrophone_resolved.
  unfold session_processor. cbn [session_bufferSize session_sampleRate started_session].
  destruct (configured_bufferSize options) as [| | | |n|] eqn:Hsize; try done.
  intros [= <-]. repeat split.
  apply Forall_fmap, Forall_forall. intros m Hm. simpl.
  by rewrite (run_message_rate _ inputs m Hm).
Qed.

End SessionFrames.

(** ** Concrete runs of the whole *)
Module Streams.
Import Fixtures.

Lemma run_small_blocks_frame_count_witness :
  Z.of_nat (length (run p2 [[[1; 2]]; [[3]]; []; [[4; 5]]]).2) = 5 / 2
  /\ Z.of_nat (length (buffer (run p2 [[[1; 2]]; [[3]]; []; [[4; 5]]]).1))
     = 5 mod 2.
Proof.
  refine (let H := run_small_blocks_frame_count p2
                     [[[1; 2]]; [[3]]; []; [[4; 5]]] _ _ _ in
          conj (proj1 H) (proj1 (proj2 H))).
  - reflexivity.
  - reflexivity.
  - repeat constructor; vm_compute; discriminate.
Defined.

Lemma run_frame_is_chunk_witness :
  (run p2 [[[1; 2]]; [[3]]; []; [[4; 5]]]).2 !! 1%nat
    = Some {| msg_samples := [3; 4]; msg_sampleRate := 48000 |}
  /\ [3; 4] = take 2 (drop 2 [1; 2; 3; 4; 5]).
Proof.
  split; [reflexivity|].
  apply (run_frame_is_chunk p2 [[[1; 2]]; [[3]]; []; [[4; 5]]] 1
           {| msg_samples := [3; 4]; msg_sampleRate := 48000 |}).
  - vm_compute. discriminate.
  - reflexivity.
Defined.

Lemma run_large_blocks_backlog_witness :
  length (run p2 [[five]; [five]; [five]]).2 = 3%nat
  /\ Z.of_nat (length (buffer (run p2 [[five]; [five]; [five]]).1))
     = 0 + 15 - 2 * 3.
Proof.
  refine (let H := run_large_blocks_backlog p2 [[five]; [five]; [five]] _ _ in
          conj (proj1 H) (proj1 (proj2 H))).
  - reflexivity.
  - repeat constructor; vm_compute; discriminate.
Defined.

Lemma process_input_negative_size_witness :
  process_input (new_processor (-2) (48000 : Z)) [five] =
    ({| bufferSize := -2; buffer := [4; 5]; sampleRate := 48000 |},
     [ {| msg_samples := [1; 2; 3]; msg_sampleRate := 48000 |} ]).
Proof.
  apply (process_input_negative_size (new_processor (-2) (48000 : Z)) five []).
  reflexivity.
Defined.

Lemma refused_source_rejects_at_once_witness :
  throws denying GetUserMedia = Some "NotAllowedError"
  /\ exists acquire,
       streamMicrophone denying None []
         = (inl "NotAllowedError", [Threw acquire "NotAllowedError"])
       /\ held denying (streamMicrophone denying None []).2 = [].
Proof.
  split; [reflexivity|].
  apply (refused_source_rejects_at_once denying None "NotAllowedError").
  reflexivity.
Defined.

Lemma start_then_stop_holds_nothing_witness :
  held granting
    ((Returned <$> start_calls granting display_options)
     ++ (Returned <$> teardown_calls (started_session granting display_options)))
  = [].
Proof.
  apply (start_then_stop_holds_nothing granting display_options
           (started_session granting display_options)
           (Returned <$> start_calls granting display_options)).
  - vm_compute. reflexivity.
  - vm_compute. reflexivity.
Defined.

Lemma second_stop_repeats_teardown_witness :
  stop granting (started_session granting None)
    (stop granting (started_session granting None) []).2
  = (inr (),
     [] ++ (Returned <$> teardown_calls (started_session granting None))
        ++ (Returned <$> teardown_calls (started_session granting None))).
Proof.
  apply (second_stop_repeats_teardown granting (started_session granting None) []).
  repeat constructor.
Defined.

Lemma other_options_ignored_witness :
  streamMicrophone granting
    (Some (<["sampleRate" := VNum 16000]> {[ "bufferSize" := VNum 2 ]})) []
  = streamMicrophone granting (Some {[ "bufferSize" := VNum 2 ]}) [].
Proof.
  apply (other_options_ignored granting {[ "bufferSize" := VNum 2 ]}
           "sampleRate" (VNum 16000) []); discriminate.
Defined.

Lemma worklet_size_truthy_witness :
  truthy (VNum 4096) = true /\ VNum 4096 <> VNum 0.
Proof.
  apply (worklet_size_truthy granting zero_options
           (Returned (NewAudioWorkletNode (VNum 4096))) (VNum 4096)).
  - vm_compute. do 4 right. left.
  - reflexivity.
Defined.

Lemma session_frames_carry_context_rate_witness :
  Forall (fun f : frame Z Z => frame_sampleRate f = 48000)
         (onmessage <$> (run p2 [[five]; [five]]).2).
Proof.
  refine (proj2 (proj2 (session_frames_carry_context_rate granting
            small_options [] (started_session granting small_options)
            (Returned <$> start_calls granting small_options)
            p2 [[five]; [five]] _ _))).
  - vm_compute. reflexivity.
  - vm_compute. reflexivity.
Defined.

End Streams.

(** ** A session with a negative frame size *)
Module NegativeSession.
Import Fixtures.

(** C4, counterexample. A start with [bufferSize: -1] resolves and its
    processor has [-1] as frame size. A block of three samples then
    reaches the callback as a frame of two samples with [bufferLength] 2:
    neither is the frame size. *)
Lemma negative_frame_size_delivers_other_length :
  (streamMicrophone granting negative_options []).1
    = inr (started_session granting negative_options)
  /\ session_processor (sample := Z) (started_session granting negative_options)
     = Some (new_processor (-1) 48000)
  /\ onmessage <$> (run (new_processor (-1) (48000 : Z)) [[[1; 2; 3]]]).2
     = [ {| samples := [1; 2]; frame_sampleRate := 48000; bufferLength := 2 |} ]
  /\ ~ Forall (fun f : frame Z Z =>
                 Z.of_nat (length (samples f)) = -1 /\ bufferLength f = -1)
        (onmessage <$> (run (new_processor (-1) (48000 : Z)) [[[1; 2; 3]]]).2).
Proof.
  repeat split; try (vm_compute; reflexivity).
  intros Hall. vm_compute in Hall.
  inversion Hall as [|f fs [Hlen _] _]. discriminate Hlen.
Qed.

End NegativeSession.
